(** * Trade Conductor landing page: the live ticker and the crash simulator

    A shallow embedding of [src/scripts/live-pnl.js].

    - [LiveTicker]: the class of the same name.  Its arithmetic is made of
      [+], [*], [Math.abs], [Math.floor] and comparisons on JavaScript
      numbers, which are IEEE-754 binary64 values; the kernel's primitive
      floats have exactly that arithmetic, so the embedding computes what
      an engine computes, rounding included.  Each call of [Math.random()]
      is an explicit argument, in the order the calls are made.
    - [CrashSimulator]: [generatePaths] and the constants around it.  It
      calls [Math.sin] and [Math.pow], whose results the language leaves
      implementation-approximated, so this part is stated over the real
      numbers with the mathematical sine.

    - [ChartView]: [updateChart], for a slider value already parsed.
    - [TickerLoop], [PnL]: the repeated tick of [scheduleNextTick] and
      the PnL line of [updateDOM], with [toFixed] on binary64.

    DOM lookups, timer delays as real time, the flash effect and the
    [Intl.NumberFormat] currency text are left out. *)

From Stdlib Require Import ZArith List Bool Floats Reals Lra Lia Sorted.
From Stdlib Require String Ascii DecimalString.
Import ListNotations.

Set Warnings "-inexact-float".

(* ================================================================== *)
(** * JavaScript number helpers on binary64                            *)
(* ================================================================== *)

Module JSNum.
Local Open Scope float_scope.

(** [Math.floor] of a finite number, as an integer.  A finite float is
    [(-1)^s * m * 2^e]; shifting the signed mantissa by [e] rounds toward
    minus infinity.  [NaN] and the infinities have no integer floor. *)
Definition Math_floor (f : float) : option Z :=
  match Prim2SF f with
  | S754_zero _ => Some 0%Z
  | S754_finite s m e => Some (Z.shiftl (if s then Zneg m else Zpos m) e)
  | S754_infinity _ => None
  | S754_nan => None
  end.

(** [a > b] on numbers: false as soon as one side is [NaN]. *)
Definition gt (a b : float) : bool := b <? a.

(** [v || d] for a numeric config field: [undefined], [0], [-0] and [NaN]
    are falsy. *)
Definition or_default (v : option float) (d : float) : float :=
  match v with
  | None => d
  | Some x => if (x =? 0) || PrimFloat.is_nan x then d else x
  end.

(** What [Math.random()] may return: a number in [[0, 1)]. *)
Definition is_random (r : float) : bool := (0 <=? r) && (r <? 1).

End JSNum.

(* ================================================================== *)
(** * LiveTicker                                                       *)
(* ================================================================== *)

Module LiveTicker.
Import JSNum.
Local Open Scope float_scope.

(** The numeric fields of a [LiveTicker] instance. *)
Record t : Set := mk {
  startValue : float;
  currentValue : float;
  volatility : float;
  driftBias : float
}.

(** [constructor(config)], numeric part. *)
Definition constructor (cfg_startValue cfg_volatility : option float) : t :=
  let sv := or_default cfg_startValue 388752.65 in
  {| startValue := sv;
     currentValue := sv;
     volatility := or_default cfg_volatility 5.00;
     driftBias := 0 |}.

(** The instance the page creates on [DOMContentLoaded]. *)
Definition page_ticker : t := constructor (Some 388752.65) (Some 5.00).

(** [getNextInterval()], [r] being the value of its [Math.random()]. *)
Definition getNextInterval (r : float) : option Z :=
  let min := 800 in
  let max := 2400 in
  Math_floor (r * (max - min + 1) + min).

(** The four [Math.random()] calls of [calculateNextValue], in program
    order.  [r_sign] is only drawn when [r_trend > 0.9]. *)
Record draws : Set := mkDraws {
  r_dir : float;
  r_mag : float;
  r_trend : float;
  r_sign : float
}.

Definition valid_draws (d : draws) : bool :=
  is_random (r_dir d) && is_random (r_mag d) &&
  is_random (r_trend d) && is_random (r_sign d).

(** [const direction = Math.random() > 0.5 ? 1 : -1] *)
Definition direction (d : draws) : float :=
  if gt (r_dir d) 0.5 then 1 else -1.

(** [this.driftBias] after the "Trend Bias" block. *)
Definition nextDriftBias (s : t) (d : draws) : float :=
  if gt (r_trend d) 0.9
  then (if gt (r_sign d) 0.5 then 0.5 else -0.5)
  else driftBias s.

(** [diff] of the "Reversion" block. *)
Definition diff (s : t) : float := currentValue s - startValue s.

(** The value of the local [change] when line 62 is reached. *)
Definition change (s : t) (d : draws) : float :=
  let change := (r_mag d * volatility s) + 0.05 in
  let change := change + nextDriftBias s d in
  if gt (PrimFloat.abs (diff s)) 500
  then -1 * (diff s * 0.1)
  else change.

(** [calculateNextValue()]. *)
Definition calculateNextValue (s : t) (d : draws) : t :=
  {| startValue := startValue s;
     currentValue := currentValue s + (change s d * direction d);
     volatility := volatility s;
     driftBias := nextDriftBias s d |}.

(** What one tick adds to [currentValue]. *)
Definition applied (s : t) (d : draws) : float :=
  currentValue (calculateNextValue s d) - currentValue s.

(** ** Concrete states and draws used below *)

(** A ticker 600 above its start value, beyond the reversion band. *)
Definition strayed_ticker : t :=
  {| startValue := 388752.65;
     currentValue := 389352.65;
     volatility := 5.00;
     driftBias := 0 |}.

(** The same 600 below. *)
Definition sunk_ticker : t :=
  {| startValue := 388752.65;
     currentValue := 388152.65;
     volatility := 5.00;
     driftBias := 0 |}.

(** A ticker built with [volatility: 4]. *)
Definition ticker4 : t := constructor None (Some 4).

(** The largest binary64 number below 1, [1 - 2^-53]. *)
Definition top_draw : float := 0x1.fffffffffffffp-1.

(** Its predecessor, [1 - 2^-52]. *)
Definition below_top_draw : float := 0x1.ffffffffffffep-1.

(** The state is inside the reversion band: [Math.abs(diff) > 500] is
    false because [|diff| <= 500]. *)
Definition in_band (s : t) : bool := PrimFloat.abs (diff s) <=? 500.

(** Draws that pick [direction = 1] and resample the drift to [-0.5],
    with [m] as the magnitude draw. *)
Definition down_drift (m : float) : draws := mkDraws 0.75 m 0.95 0.25.

End LiveTicker.

(* ================================================================== *)
(** * Crash Simulator                                                  *)
(* ================================================================== *)

Module CrashSimulator.
Local Open Scope R_scope.

(** Constants mapping to the SVG view box [0 0 800 350]. *)
Definition WIDTH : R := 800.
Definition HEIGHT : R := 350.
Definition START_Y : R := 150.
Definition STOP_LOSS_DELTA : R := 30.
Definition STOP_LOSS_Y : R := START_Y + STOP_LOSS_DELTA.

(** The path strings are kept as the sequence of pieces appended to them:
    a coordinate is printed either through [toFixed(1)] or as the number
    itself (the template [${STOP_LOSS_Y}]). *)
Inductive coord : Type :=
| toFixed1 (r : R)
| plain (r : R).

Inductive seg : Type :=
| M (x y : coord)
| L (x y : coord).

Definition point : Type := (R * R)%type.

(** The [let] variables of [generatePaths]. *)
Record locals : Type := mkLocals {
  unpPathStr : list seg;
  protPathStr : list seg;
  unpPoints : list point;
  protPoints : list point;
  isStoppedOut : bool;
  stopOutX : R
}.

(** The object [generatePaths] returns. *)
Record result : Type := mkResult {
  unpPath : list seg;
  protPath : list seg;
  res_isStoppedOut : bool;
  res_stopOutX : R;
  finalUnpY : R
}.

Definition steps : nat := 20.
Definition stepSize : R := WIDTH / INR steps.

(** [a >= b] *)
Definition geb (a b : R) : bool := if Rle_dec b a then true else false.

Definition noise (x : R) : R := sin (x / 50) * 10.
Definition crashDrop (factor x : R) : R := ((x / WIDTH) ^ 2 * 200) * factor.

(** The state before the loop. *)
Definition init : locals :=
  {| unpPathStr := [M (plain 0) (plain START_Y)];
     protPathStr := [M (plain 0) (plain START_Y)];
     unpPoints := [(0, START_Y)];
     protPoints := [(0, START_Y)];
     isStoppedOut := false;
     stopOutX := 0 |}.

(** One iteration of [for (let i = 1; i <= steps; i++)]. *)
Definition body (factor : R) (st : locals) (i : nat) : locals :=
  let x := INR i * stepSize in
  let y := START_Y + noise x + crashDrop factor x in
  let y := Rmin (Rmax y 0) 350 in
  let unpPoints' := unpPoints st ++ [(x, y)] in
  let unpPathStr' := unpPathStr st ++ [L (toFixed1 x) (toFixed1 y)] in
  if negb (isStoppedOut st) then
    if geb y STOP_LOSS_Y then
      {| unpPathStr := unpPathStr';
         protPathStr := protPathStr st ++ [L (toFixed1 x) (plain STOP_LOSS_Y)];
         unpPoints := unpPoints';
         protPoints := protPoints st ++ [(x, STOP_LOSS_Y)];
         isStoppedOut := true;
         stopOutX := x |}
    else
      {| unpPathStr := unpPathStr';
         protPathStr := protPathStr st ++ [L (toFixed1 x) (toFixed1 y)];
         unpPoints := unpPoints';
         protPoints := protPoints st ++ [(x, y)];
         isStoppedOut := isStoppedOut st;
         stopOutX := stopOutX st |}
  else
    {| unpPathStr := unpPathStr';
       protPathStr := protPathStr st ++ [L (toFixed1 x) (plain STOP_LOSS_Y)];
       unpPoints := unpPoints';
       protPoints := protPoints st ++ [(x, STOP_LOSS_Y)];
       isStoppedOut := isStoppedOut st;
       stopOutX := stopOutX st |}.

(** The loop run for [i = 1 .. n]. *)
Definition run (factor : R) (n : nat) : locals :=
  fold_left (body factor) (seq 1 n) init.

(** The locals of [generatePaths(volatility)] at its [return]. *)
Definition generateLocals (volatility : R) : locals :=
  let factor := volatility / 100 in
  run factor steps.

(** [generatePaths(volatility)]. *)
Definition generatePaths (volatility : R) : result :=
  let st := generateLocals volatility in
  {| unpPath := unpPathStr st;
     protPath := protPathStr st;
     res_isStoppedOut := isStoppedOut st;
     res_stopOutX := stopOutX st;
     finalUnpY := snd (last (unpPoints st) (0, 0)) |}.

(** ** Closed forms used in the proofs *)

(** The [x] and the clamped [y] of iteration [i]. *)
Definition xOf (i : nat) : R := INR i * stepSize.
Definition yOf (factor : R) (i : nat) : R :=
  Rmin (Rmax (START_Y + noise (xOf i) + crashDrop factor (xOf i)) 0) 350.

(** Iteration [i] sees a [y] at or beyond the stop-loss line. *)
Definition hit (factor : R) (i : nat) : bool := geb (yOf factor i) STOP_LOSS_Y.

(** The protected [y] of iteration [i]. *)
Definition protYOf (factor : R) (i : nat) : R :=
  if existsb (hit factor) (seq 1 i) then STOP_LOSS_Y else yOf factor i.

(** A sample reaches the stop-loss line. *)
Definition reaches (p : point) : bool := geb (snd p) STOP_LOSS_Y.


End CrashSimulator.

(* ================================================================== *)
(** * The chart update                                                 *)
(* ================================================================== *)

Module ChartView.
Import CrashSimulator.
Local Open Scope R_scope.








End ChartView.

(* ================================================================== *)
(** * The tick loop and the PnL line                                   *)
(* ================================================================== *)

Module TickerLoop.
Import JSNum LiveTicker.

(** [scheduleNextTick] fires [calculateNextValue] once per timer, for as
    long as the page lives: the state after the ticks whose draws are
    [ds], oldest first. *)
Definition ticks (s : t) (ds : list draws) : t :=
  fold_left calculateNextValue ds s.

End TickerLoop.

Module PnL.
Import JSNum LiveTicker.
Import Ascii String.StringSyntax Ascii.AsciiSyntax.
Local Open Scope float_scope.
Local Open Scope string_scope.

(** String concatenation, the [+] of JavaScript on strings. *)
Local Infix "+++" := String.append (at level 60, right associativity).

(** [k] zeros. *)
Fixpoint zeros (k : nat) : String.string :=
  match k with
  | O => ""
  | S k => String.String "0"%char (zeros k)
  end.

(** The decimal digits of [n >= 0], then the point put before the last
    [f] digits, zeros added in front so that a digit precedes the point
    (steps 9 to 10 of [Number.prototype.toFixed]). *)
Definition fixed_digits (f : nat) (n : Z) : String.string :=
  let m := DecimalString.NilZero.string_of_uint (N.to_uint (Z.to_N n)) in
  if Nat.eqb f 0 then m
  else
    let k := String.length m in
    let m := if Nat.leb k f then zeros (f + 1 - k) +++ m else m in
    let k := String.length m in
    String.substring 0 (k - f) m +++ "." +++ String.substring (k - f) f m.

(** The integer [n] for which [n / 10^f] is closest to [m * 2^e], the
    larger one when two are as close. *)
Definition nearest_scaled (f : nat) (m : positive) (e : Z) : Z :=
  let num := (Zpos m * 10 ^ Z.of_nat f)%Z in
  if (0 <=? e)%Z then (num * 2 ^ e)%Z
  else ((2 * num + 2 ^ (- e)) / 2 ^ (- e + 1))%Z.

(** [m * 2^e >= 10^21] *)
Definition at_least_1e21 (m : positive) (e : Z) : bool :=
  if (0 <=? e)%Z then (10 ^ 21 <=? Zpos m * 2 ^ e)%Z
  else (10 ^ 21 * 2 ^ (- e) <=? Zpos m)%Z.

(** [x.toFixed(f)].  Numbers of magnitude [10^21] and more are printed
    by [ToString], which is not modelled: [None]. *)
Definition toFixed (f : nat) (x : float) : option String.string :=
  match Prim2SF x with
  | S754_nan => Some "NaN"
  | S754_infinity s => Some (if s then "-Infinity" else "Infinity")
  | S754_zero _ => Some (fixed_digits f 0)
  | S754_finite s m e =>
      if at_least_1e21 m e then None
      else Some ((if s then "-" else "") +++ fixed_digits f (nearest_scaled f m e))
  end.

(** What the "Update PnL" block writes into the PnL element. *)
Record pnl_view : Set := mkPnl {
  textContent : String.string;
  className : String.string
}.

Definition openValue : float := 387474.12.

(** [diff], [pct] and [sign] of [updateDOM]. *)
Definition pnl_diff (s : t) : float := currentValue s - openValue.
Definition pnl_pct (s : t) : float := (pnl_diff s / openValue) * 100.
Definition pnl_sign (s : t) : String.string :=
  if 0 <=? pnl_diff s then "+" else "".

(** The PnL part of [updateDOM()], both elements being present. *)
Definition updatePnl (s : t) : option pnl_view :=
  match toFixed 2 (pnl_pct s), toFixed 2 (PrimFloat.abs (pnl_diff s)) with
  | Some pct, Some amount =>
      Some {| textContent :=
                pnl_sign s +++ pct +++ "% (" +++ pnl_sign s +++ "$" +++ amount +++ ")";
              className :=
                if 0 <=? pnl_diff s then "text-green" else "text-red" |}
  | _, _ => None
  end.



End PnL.

(* ================================================================== *)
(** * Properties of the ticker                                         *)
(* ================================================================== *)

Module TickerProps.
Import JSNum LiveTicker.
Local Open Scope float_scope.

(** The configuration of the page is the default one. *)
Lemma page_ticker_fields :
  page_ticker = {| startValue := 388752.65; currentValue := 388752.65;
                   volatility := 5; driftBias := 0 |}.
Proof. reflexivity. Qed.

(** Beyond the band, the random magnitude and the drift are discarded:
    [change] is [-(diff * 0.1)] whatever was drawn. *)
Lemma change_beyond_band (s : t) (d : draws) :
  gt (PrimFloat.abs (diff s)) 500 = true ->
  change s d = -1 * (diff s * 0.1).
Proof. intros Hfar. unfold change. now rewrite Hfar. Qed.

(** The step added to [currentValue] is [change * direction]: with the
    direction drawn as [-1] the sign of [change] is flipped. *)
Lemma currentValue_step (s : t) (d : draws) :
  currentValue (calculateNextValue s d)
  = currentValue s + (change s d * direction d).
Proof. reflexivity. Qed.

(** C1 (evaluation at a failing input).  The ticker is 600 above its
    start value, so [|diff| > 500] and [change = -60] points back to the
    start; the direction draw [0.25] gives [direction = -1], and whatever
    the three other draws are, the tick adds [+60]: same sign as [diff],
    away from [startValue], the distance growing from 600 to 660. *)
Theorem reversion_flipped_by_direction :
  forall r_mag r_trend r_sign : float,
    let s := strayed_ticker in
    let d := mkDraws 0.25 r_mag r_trend r_sign in
    is_random (r_dir d) = true /\
    diff s = 600 /\
    gt (PrimFloat.abs (diff s)) 500 = true /\
    direction d = -1 /\
    change s d = -60 /\
    applied s d = 60 /\
    (0 <? applied s d) = true /\
    (PrimFloat.abs (diff s) <? PrimFloat.abs (diff (calculateNextValue s d))) = true.
Proof.
  intros r_mag r_trend r_sign s d.
  repeat split; vm_compute; reflexivity.
Qed.

(** The mirrored case: 600 below the start value and [direction = -1],
    the tick subtracts a further 60. *)
Lemma reversion_flipped_below :
  forall r_mag r_trend r_sign : float,
    let s := sunk_ticker in
    let d := mkDraws 0.25 r_mag r_trend r_sign in
    diff s = -600 /\ applied s d = -60.
Proof. intros; split; vm_compute; reflexivity. Qed.

(** With [direction = 1] the same state does move back. *)
Lemma reversion_kept_by_direction :
  forall r_mag r_trend r_sign : float,
    let d := mkDraws 0.75 r_mag r_trend r_sign in
    direction d = 1 /\ applied strayed_ticker d = -60.
Proof. intros; split; vm_compute; reflexivity. Qed.

(** C8 (evaluation at a failing input).  [top_draw = 1 - 2^-53] is a
    number of [[0, 1)].  In binary64 [top_draw * 1601] rounds to
    [1601 - 2^-42], and adding 800 lands on the midpoint between
    [2401 - 2^-41] and [2401], which rounds to the even neighbour 2401:
    [getNextInterval] returns 2401, one more than the documented
    maximum. *)
Theorem getNextInterval_top_draw :
  is_random top_draw = true /\
  top_draw * (2400 - 800 + 1) = 0x1.903ffffffffffp+10 /\
  top_draw * (2400 - 800 + 1) + 800 = 2401 /\
  getNextInterval top_draw = Some 2401%Z.
Proof. repeat split; vm_compute; reflexivity. Qed.

(** The ends of the documented range are reached, by the draw 0 and by
    the draw just below [top_draw]. *)
Lemma getNextInterval_ends :
  getNextInterval 0 = Some 800%Z /\
  is_random below_top_draw = true /\
  getNextInterval below_top_draw = Some 2400%Z.
Proof. repeat split; vm_compute; reflexivity. Qed.

(** C10.  Inside the band the computed [change] need not be positive.
    On the page's ticker, with the drift resampled to [-0.5] and
    [direction = 1]: the magnitude draw 0 gives [change = 0.05 - 0.5 < 0],
    and the tick lowers [currentValue] although the direction drawn is
    [+1]; the magnitude draw 0.085 gives a step of about -0.025, smaller
    in magnitude than the 0.05 baseline.  A step of exactly zero: on a
    ticker of volatility 4 the magnitude draw 0.1125 gives
    [0.45 + 0.05 - 0.5 = 0], and [currentValue] stays where it was. *)
Theorem change_negative_small_or_zero :
  (exists d : draws,
      valid_draws d = true /\ in_band page_ticker = true /\
      nextDriftBias page_ticker d = -0.5 /\
      direction d = 1 /\
      (change page_ticker d <? 0) = true /\
      (currentValue (calculateNextValue page_ticker d)
         <? currentValue page_ticker) = true) /\
  (exists d : draws,
      valid_draws d = true /\ in_band page_ticker = true /\
      (PrimFloat.abs (change page_ticker d * direction d) <? 0.05) = true /\
      (PrimFloat.abs (applied page_ticker d) <? 0.05) = true) /\
  (exists (s : t) (d : draws),
      valid_draws d = true /\ in_band s = true /\
      (change s d * direction d =? 0) = true /\
      currentValue (calculateNextValue s d) = currentValue s).
Proof.
  split; [|split].
  - exists (down_drift 0). repeat split; vm_compute; reflexivity.
  - exists (down_drift 0.085). repeat split; vm_compute; reflexivity.
  - exists ticker4, (down_drift 0.1125). repeat split; vm_compute; reflexivity.
Qed.

End TickerProps.

(* ================================================================== *)
(** * Properties of the crash simulator                                *)
(* ================================================================== *)

Module CrashProps.
Import CrashSimulator.
Local Open Scope R_scope.

(** Split a conjunction into its parts, and nothing else. *)
Ltac conjs := repeat match goal with |- _ /\ _ => split end.

(** ** The loop, one iteration at a time *)

Lemma run_S (f : R) (n : nat) : run f (S n) = body f (run f n) (S n).
Proof.
  unfold run. rewrite seq_S, fold_left_app. reflexivity.
Qed.

Lemma body_unpPoints f st i :
  unpPoints (body f st i) = unpPoints st ++ [(xOf i, yOf f i)].
Proof.
  unfold body. destruct (negb (isStoppedOut st)); [destruct (geb _ _)|]; reflexivity.
Qed.

Lemma body_isStoppedOut f st i :
  isStoppedOut (body f st i) = isStoppedOut st || hit f i.
Proof.
  unfold body, hit, yOf, xOf.
  destruct (isStoppedOut st); simpl; [reflexivity|].
  destruct (geb _ _); reflexivity.
Qed.

Lemma body_stopOutX f st i :
  stopOutX (body f st i) =
  if isStoppedOut st then stopOutX st
  else if hit f i then xOf i else stopOutX st.
Proof.
  unfold body, hit, yOf, xOf.
  destruct (isStoppedOut st); simpl; [reflexivity|].
  destruct (geb _ _); reflexivity.
Qed.

Lemma body_protPoints f st i :
  protPoints (body f st i) =
  protPoints st ++
    [(xOf i, if isStoppedOut st || hit f i then STOP_LOSS_Y else yOf f i)].
Proof.
  unfold body, hit, yOf, xOf.
  destruct (isStoppedOut st); simpl; [reflexivity|].
  destruct (geb _ _); reflexivity.
Qed.

(** ** Closed forms of the locals after [n] iterations *)

Lemma find_snoc {A} (p : A -> bool) (l : list A) (a : A) :
  find p (l ++ [a]) =
  match find p l with
  | Some b => Some b
  | None => if p a then Some a else None
  end.
Proof.
  induction l as [|b l IH]; simpl; [reflexivity|].
  destruct (p b); [reflexivity|exact IH].
Qed.

Lemma existsb_find {A} (p : A -> bool) (l : list A) :
  existsb p l = match find p l with Some _ => true | None => false end.
Proof.
  induction l as [|b l IH]; simpl; [reflexivity|].
  destruct (p b); [reflexivity|exact IH].
Qed.

Lemma find_map {A B} (g : A -> B) (p : B -> bool) (l : list A) :
  find p (map g l) = option_map g (find (fun a => p (g a)) l).
Proof.
  induction l as [|a l IH]; simpl; [reflexivity|].
  destruct (p (g a)); [reflexivity|exact IH].
Qed.

Lemma unpPoints_run f n :
  unpPoints (run f n) =
  (0, START_Y) :: map (fun i => (xOf i, yOf f i)) (seq 1 n).
Proof.
  induction n as [|n IH]; [reflexivity|].
  rewrite run_S, body_unpPoints, IH, seq_S, map_app. reflexivity.
Qed.

Lemma isStoppedOut_run f n :
  isStoppedOut (run f n) = existsb (hit f) (seq 1 n).
Proof.
  induction n as [|n IH]; [reflexivity|].
  rewrite run_S, body_isStoppedOut, IH, seq_S, existsb_app.
  simpl. now rewrite orb_false_r.
Qed.

Lemma stopOutX_run f n :
  stopOutX (run f n) =
  match find (hit f) (seq 1 n) with Some i => xOf i | None => 0 end.
Proof.
  induction n as [|n IH]; [reflexivity|].
  rewrite run_S, body_stopOutX, isStoppedOut_run, IH, seq_S, find_snoc.
  rewrite existsb_find. simpl.
  destruct (find (hit f) (seq 1 n)); [reflexivity|].
  destruct (hit f (S n)); reflexivity.
Qed.

Lemma protPoints_run f n :
  protPoints (run f n) =
  (0, START_Y) :: map (fun i => (xOf i, protYOf f i)) (seq 1 n).
Proof.
  induction n as [|n IH]; [reflexivity|].
  assert (Hlast : protYOf f (S n) =
                  if existsb (hit f) (seq 1 n) || hit f (S n)
                  then STOP_LOSS_Y else yOf f (S n)).
  { unfold protYOf. rewrite seq_S, existsb_app. simpl.
    now rewrite orb_false_r. }
  rewrite run_S, body_protPoints, IH, isStoppedOut_run.
  rewrite (seq_S n 1), map_app. simpl. now rewrite Hlast.
Qed.

(** ** Arithmetic of the samples *)

Lemma geb_true (a b : R) : geb a b = true <-> b <= a.
Proof.
  unfold geb. destruct (Rle_dec b a); split; intros; try easy; try discriminate.
Qed.

Lemma geb_false (a b : R) : geb a b = false <-> a < b.
Proof.
  unfold geb. destruct (Rle_dec b a); split; intros; try easy; try discriminate; lra.
Qed.

Lemma INR_steps : INR steps = 20.
Proof. rewrite INR_IZR_INZ. reflexivity. Qed.

Lemma stepSize_val : stepSize = 40.
Proof. unfold stepSize, WIDTH. rewrite INR_steps. lra. Qed.

Lemma xOf_0 : xOf 0 = 0.
Proof. unfold xOf. simpl. lra. Qed.

Lemma xOf_steps : xOf steps = WIDTH.
Proof. unfold xOf. rewrite INR_steps, stepSize_val. unfold WIDTH. lra. Qed.

Lemma xOf_lt (i j : nat) : (i < j)%nat -> xOf i < xOf j.
Proof.
  intros Hij. unfold xOf. rewrite stepSize_val.
  apply lt_INR in Hij. lra.
Qed.

Lemma noise_bound (x : R) : -10 <= noise x <= 10.
Proof. unfold noise. pose proof (SIN_bound (x / 50)). lra. Qed.

Lemma crashDrop_0 (x : R) : crashDrop (0 / 100) x = 0.
Proof. unfold crashDrop. lra. Qed.

(** The clamp keeps every [y] inside the view box. *)
Lemma yOf_bounds f i : 0 <= yOf f i <= 350.
Proof.
  unfold yOf, Rmin, Rmax. repeat destruct (Rle_dec _ _); lra.
Qed.

Lemma yOf_0 f : yOf f 0 = START_Y.
Proof.
  unfold yOf, noise, crashDrop. rewrite xOf_0.
  replace (0 / 50) with 0 by lra. rewrite sin_0.
  unfold START_Y, WIDTH, Rmin, Rmax. simpl pow.
  repeat destruct (Rle_dec _ _); lra.
Qed.

(** Without a crash term the clamp does nothing and the line is never
    reached. *)
Lemma yOf_flat i : yOf (0 / 100) i = START_Y + sin (xOf i / 50) * 10.
Proof.
  unfold yOf. rewrite crashDrop_0.
  pose proof (noise_bound (xOf i)) as Hn. unfold noise in *.
  unfold START_Y, Rmin, Rmax. repeat destruct (Rle_dec _ _); lra.
Qed.

Lemma hit_flat i : hit (0 / 100) i = false.
Proof.
  unfold hit. apply geb_false. rewrite yOf_flat.
  pose proof (SIN_bound (xOf i / 50)).
  unfold STOP_LOSS_Y, STOP_LOSS_DELTA, START_Y. lra.
Qed.

Lemma existsb_hit_flat l : existsb (hit (0 / 100)) l = false.
Proof.
  induction l as [|i l IH]; simpl; [reflexivity|].
  now rewrite hit_flat, IH.
Qed.

(** ** Reading samples by index *)

Lemma nth_cons_map_seq {A} (g : nat -> A) (a d : A) (n j : nat) :
  (1 <= j <= n)%nat ->
  nth j (a :: map g (seq 1 n)) d = g j.
Proof.
  intros [H1 Hn]. destruct j as [|j]; [lia|]. simpl.
  rewrite (nth_indep _ d (g 0%nat)) by (rewrite length_map, length_seq; lia).
  rewrite map_nth, seq_nth by lia. reflexivity.
Qed.

Lemma nth_unpPoints f n j :
  (j <= n)%nat ->
  nth j (unpPoints (run f n)) (0, 0) = (xOf j, yOf f j).
Proof.
  intros Hj. rewrite unpPoints_run. destruct j as [|j].
  - simpl. now rewrite xOf_0, yOf_0.
  - apply (nth_cons_map_seq (fun i => (xOf i, yOf f i))). lia.
Qed.

Lemma nth_protPoints f n j :
  (1 <= j <= n)%nat ->
  nth j (protPoints (run f n)) (0, 0) = (xOf j, protYOf f j).
Proof.
  intros Hj. rewrite protPoints_run.
  now apply (nth_cons_map_seq (fun i => (xOf i, protYOf f i))).
Qed.

Lemma unpPoints_as_map f n :
  unpPoints (run f n) = map (fun i => (xOf i, yOf f i)) (seq 0 (S n)).
Proof.
  rewrite unpPoints_run. simpl. now rewrite xOf_0, yOf_0.
Qed.

Lemma last_unpPoints f n :
  snd (last (unpPoints (run f n)) (0, 0)) = yOf f n.
Proof.
  destruct n as [|n].
  - simpl. now rewrite yOf_0.
  - rewrite run_S, body_unpPoints, last_last. reflexivity.
Qed.

Lemma finalUnpY_yOf v : finalUnpY (generatePaths v) = yOf (v / 100) steps.
Proof. exact (last_unpPoints (v / 100) steps). Qed.

Lemma find_first {A} (p : A -> bool) (l : list A) (k : nat) (a : A) :
  nth_error l k = Some a ->
  p a = true ->
  (forall j b, (j < k)%nat -> nth_error l j = Some b -> p b = false) ->
  find p l = Some a.
Proof.
  revert k. induction l as [|c l IH]; intros k Hk Ha Hbefore.
  - destruct k; discriminate.
  - destruct k as [|k]; simpl in *.
    + injection Hk as ->. now rewrite Ha.
    + rewrite (Hbefore 0%nat c) by (reflexivity || lia).
      apply (IH k); auto.
      intros j b Hj Hb. apply (Hbefore (S j) b); [lia|exact Hb].
Qed.

Lemma find_none_forall {A} (p : A -> bool) (l : list A) :
  (forall a, In a l -> p a = false) -> find p l = None.
Proof.
  induction l as [|c l IH]; intros H; simpl; [reflexivity|].
  rewrite (H c) by now left. apply IH. intros a Ha. apply H. now right.
Qed.

Lemma xs_sorted (n s : nat) : StronglySorted Rlt (map xOf (seq s n)).
Proof.
  revert s. induction n as [|n IH]; intros s; simpl; constructor.
  - apply IH.
  - apply Forall_forall. intros x Hx.
    apply in_map_iff in Hx as [i [<- Hi]]. apply in_seq in Hi.
    apply xOf_lt. lia.
Qed.

Lemma map_fst_unpPoints f n :
  map fst (unpPoints (run f n)) = map xOf (seq 0 (S n)).
Proof.
  rewrite unpPoints_as_map, map_map. reflexivity.
Qed.

Lemma map_fst_protPoints f n :
  map fst (protPoints (run f n)) = map xOf (seq 0 (S n)).
Proof.
  rewrite protPoints_run. simpl. rewrite map_map, xOf_0. reflexivity.
Qed.

(** As long as the stop has not fired, both path strings are the same. *)
Lemma paths_agree_until_stop f n :
  isStoppedOut (run f n) = false ->
  protPathStr (run f n) = unpPathStr (run f n).
Proof.
  induction n as [|n IH]; [reflexivity|].
  rewrite run_S, body_isStoppedOut. intros Hs.
  apply orb_false_iff in Hs as [Hprev Hnow].
  specialize (IH Hprev). unfold body, hit, yOf, xOf in *.
  rewrite Hprev. cbn [negb]. rewrite Hnow. cbn.
  now rewrite IH.
Qed.

(** Once a sample has reached the line, the protected trajectory stays
    on it. *)
Lemma pinned_after_reach f n k j :
  (k <= j <= n)%nat ->
  STOP_LOSS_Y <= snd (nth k (unpPoints (run f n)) (0, 0)) ->
  snd (nth j (protPoints (run f n)) (0, 0)) = STOP_LOSS_Y.
Proof.
  intros [Hkj Hj] Hreach.
  rewrite nth_unpPoints in Hreach by lia. cbn [snd] in Hreach.
  destruct k as [|k].
  - rewrite yOf_0 in Hreach.
    unfold STOP_LOSS_Y, STOP_LOSS_DELTA, START_Y in Hreach. lra.
  - rewrite nth_protPoints by lia. cbn [snd]. unfold protYOf.
    assert (Hex : existsb (hit f) (seq 1 j) = true).
    { apply existsb_exists. exists (S k). split.
      - apply in_seq. lia.
      - apply geb_true. exact Hreach. }
    now rewrite Hex.
Qed.

Lemma generateLocals_run v : generateLocals v = run (v / 100) steps.
Proof. reflexivity. Qed.

Lemma STOP_LOSS_Y_val : STOP_LOSS_Y = START_Y + 30.
Proof. reflexivity. Qed.

(** ** The trajectories returned by [generatePaths] *)

(** C4.  Whatever the volatility (in particular for every volatility in
    [[0, 100]]), both trajectories have [steps + 1 = 21] samples, their
    [x] coordinates are [i * (WIDTH / steps)] for [i = 0 .. 20], strictly
    increasing, the first one 0 and the last one [WIDTH = 800]. *)
Theorem sample_count_and_abscissas :
  forall v : R,
    let d := generateLocals v in
    let xs := map (fun i => INR i * (WIDTH / INR steps)) (seq 0 (steps + 1)) in
    (steps + 1 = 21)%nat /\
    length (unpPoints d) = (steps + 1)%nat /\
    length (protPoints d) = (steps + 1)%nat /\
    map fst (unpPoints d) = xs /\
    map fst (protPoints d) = xs /\
    StronglySorted Rlt xs /\
    nth 0 xs 0 = 0 /\
    nth steps xs 0 = WIDTH /\
    WIDTH = 800.
Proof.
  intros v d xs.
  assert (Hxs : xs = map xOf (seq 0 (S steps))).
  { unfold xs. replace (steps + 1)%nat with (S steps) by reflexivity.
    reflexivity. }
  assert (Hu : map fst (unpPoints d) = xs)
    by (rewrite Hxs; apply map_fst_unpPoints).
  assert (Hp : map fst (protPoints d) = xs)
    by (rewrite Hxs; apply map_fst_protPoints).
  assert (Hlen : length xs = (steps + 1)%nat).
  { unfold xs. now rewrite length_map, length_seq. }
  conjs.
  - reflexivity.
  - rewrite <- Hlen, <- Hu. now rewrite length_map.
  - rewrite <- Hlen, <- Hp. now rewrite length_map.
  - exact Hu.
  - exact Hp.
  - rewrite Hxs. apply xs_sorted.
  - rewrite Hxs. change (xOf 0 = 0). apply xOf_0.
  - rewrite Hxs.
    rewrite (nth_indep _ 0 (xOf 0%nat))
      by (rewrite length_map, length_seq; unfold steps; lia).
    rewrite map_nth, seq_nth by (unfold steps; lia).
    apply xOf_steps.
  - reflexivity.
Qed.

(** C5.  For every volatility, the unprotected trajectory is, sample by
    sample for [i = 0 .. steps], the point of abscissa
    [x = i * (WIDTH / steps)] and ordinate
    [clamp(START_Y + sin(x/50)*10 + (x/WIDTH)^2 * 200 * (volatility/100),
    0, HEIGHT)]; the hard-coded first sample [(0, START_Y)] is the value
    of the formula at [i = 0]. *)
Theorem unprotected_formula :
  forall v : R,
    unpPoints (generateLocals v) =
    map (fun i =>
           let x := INR i * (WIDTH / INR steps) in
           (x, Rmin (Rmax (START_Y + sin (x / 50) * 10
                           + (x / WIDTH) ^ 2 * 200 * (v / 100)) 0) HEIGHT))
        (seq 0 (steps + 1))
    /\ START_Y = 150 /\ WIDTH = 800 /\ HEIGHT = 350.
Proof.
  intros v. split; [|conjs; reflexivity].
  rewrite generateLocals_run, unpPoints_as_map.
  replace (steps + 1)%nat with (S steps) by reflexivity.
  apply map_ext. intros i. reflexivity.
Qed.

(** C2.  For every volatility: [isStoppedOut] is true exactly when some
    sample of the unprotected trajectory has [y >= STOP_LOSS_Y = 180];
    [stopOutX] is the [x] of the first such sample (the first element of
    the trajectory, in order, that reaches the line: no earlier sample
    does), and 0 when no sample reaches the line. *)
Theorem stopped_out_iff_and_first_x :
  forall v : R,
    let d := generateLocals v in
    let r := generatePaths v in
    STOP_LOSS_Y = 180 /\
    (res_isStoppedOut r = true <->
     exists p, In p (unpPoints d) /\ STOP_LOSS_Y <= snd p) /\
    res_stopOutX r =
      match find reaches (unpPoints d) with
      | Some p => fst p
      | None => 0
      end /\
    (forall k p,
        nth_error (unpPoints d) k = Some p ->
        STOP_LOSS_Y <= snd p ->
        (forall j q, (j < k)%nat -> nth_error (unpPoints d) j = Some q ->
                     snd q < STOP_LOSS_Y) ->
        res_stopOutX r = fst p) /\
    ((forall p, In p (unpPoints d) -> snd p < STOP_LOSS_Y) ->
     res_stopOutX r = 0).
Proof.
  intros v d r.
  assert (Hfind : res_stopOutX r =
                  match find reaches (unpPoints d) with
                  | Some p => fst p | None => 0 end).
  { change (res_stopOutX r) with (stopOutX (run (v / 100) steps)).
    unfold d. rewrite generateLocals_run.
    rewrite stopOutX_run, unpPoints_run.
    cbn [find]. unfold reaches at 1. cbn [snd].
    replace (geb START_Y STOP_LOSS_Y) with false
      by (symmetry; apply geb_false;
          unfold STOP_LOSS_Y, STOP_LOSS_DELTA, START_Y; lra).
    rewrite find_map. cbn [snd]. fold (hit (v / 100)).
    change (fun a : nat => reaches (xOf a, yOf (v / 100) a))
      with (hit (v / 100)).
    destruct (find (hit (v / 100)) (seq 1 steps)); reflexivity. }
  split; [unfold STOP_LOSS_Y, STOP_LOSS_DELTA, START_Y; lra|].
  split; [|split; [exact Hfind|split]].
  - change (res_isStoppedOut r) with (isStoppedOut (run (v / 100) steps)).
    unfold d. rewrite generateLocals_run.
    rewrite isStoppedOut_run, unpPoints_run, existsb_exists. split.
    + intros [i [Hi Hhit]]. exists (xOf i, yOf (v / 100) i). split.
      * right. apply in_map_iff. exists i. split; [reflexivity|exact Hi].
      * apply geb_true. exact Hhit.
    + intros [p [[<- | Hin] Hp]].
      * cbn [snd] in Hp. unfold STOP_LOSS_Y, STOP_LOSS_DELTA, START_Y in Hp. lra.
      * apply in_map_iff in Hin as [i [<- Hi]]. exists i. split; [exact Hi|].
        apply geb_true. exact Hp.
  - intros k p Hk Hp Hbefore. rewrite Hfind.
    rewrite (find_first reaches (unpPoints d) k p); auto.
    + apply geb_true. exact Hp.
    + intros j b Hj Hb. apply geb_false. exact (Hbefore j b Hj Hb).
  - intros Hnone. rewrite Hfind.
    rewrite find_none_forall; [reflexivity|].
    intros a Ha. apply geb_false. exact (Hnone a Ha).
Qed.

(** C3.  For every volatility, if the unprotected sample of index [k]
    has [y >= STOP_LOSS_Y], every protected sample of index [j >= k] (up
    to the last one, [steps]) has [y] exactly [START_Y + 30]; in
    particular this holds from the first such [k] onward, whatever the
    unprotected values after it are. *)
Theorem protected_pinned_after_stop :
  forall (v : R) (k j : nat),
    (k <= j <= steps)%nat ->
    STOP_LOSS_Y <= snd (nth k (unpPoints (generateLocals v)) (0, 0)) ->
    snd (nth j (protPoints (generateLocals v)) (0, 0)) = START_Y + 30.
Proof.
  intros v k j Hkj. rewrite generateLocals_run. intros Hreach.
  rewrite (pinned_after_reach (v / 100) steps k j Hkj Hreach).
  apply STOP_LOSS_Y_val.
Qed.

(** At full volatility the last unprotected sample is beyond the line. *)
Lemma full_crash_reaches_line :
  STOP_LOSS_Y <= snd (nth 20 (unpPoints (generateLocals 100)) (0, 0)).
Proof.
  rewrite generateLocals_run.
  rewrite (nth_unpPoints (100 / 100) steps 20) by (unfold steps; lia).
  cbn [snd]. change 20%nat with steps. unfold yOf. rewrite xOf_steps.
  pose proof (noise_bound WIDTH) as Hn.
  unfold crashDrop, STOP_LOSS_Y, STOP_LOSS_DELTA, START_Y, WIDTH in *.
  simpl pow. unfold Rmin, Rmax. repeat destruct (Rle_dec _ _); lra.
Qed.

Lemma protected_pinned_after_stop_witness :
  snd (nth 20 (protPoints (generateLocals 100)) (0, 0)) = START_Y + 30.
Proof.
  apply (protected_pinned_after_stop 100 20 20).
  - unfold steps. lia.
  - exact full_crash_reaches_line.
Defined.

(** C9.  For every real volatility, every sample of the protected
    trajectory has [0 <= y <= STOP_LOSS_Y = START_Y + 30]. *)
Theorem protected_within_stop_band :
  forall v : R,
    Forall (fun p => 0 <= snd p <= START_Y + 30)
           (protPoints (generateLocals v)).
Proof.
  intros v. rewrite generateLocals_run, protPoints_run.
  constructor.
  - cbn [snd]. unfold START_Y. lra.
  - apply Forall_forall. intros p Hp.
    apply in_map_iff in Hp as [i [<- Hi]]. apply in_seq in Hi. cbn [snd].
    unfold protYOf.
    destruct (existsb (hit (v / 100)) (seq 1 i)) eqn:Hstop.
    + unfold STOP_LOSS_Y, STOP_LOSS_DELTA, START_Y. lra.
    + pose proof (yOf_bounds (v / 100) i) as [Hlo _]. split; [exact Hlo|].
      assert (Hi_miss : hit (v / 100) i = false).
      { destruct (hit (v / 100) i) eqn:Hh; [|reflexivity].
        rewrite <- Hstop. symmetry. apply existsb_exists.
        exists i. split; [apply in_seq; lia|exact Hh]. }
      apply geb_false in Hi_miss.
      unfold STOP_LOSS_Y, STOP_LOSS_DELTA in Hi_miss. lra.
Qed.

(** C6.  At volatility 0 the crash term vanishes at every [x]; every
    unprotected sample is [(x, START_Y + sin(x/50)*10)], strictly below
    the line; [isStoppedOut] is false, [stopOutX] is 0 and the protected
    trajectory is the unprotected one. *)
Theorem zero_volatility_never_stops :
  let d := generateLocals 0 in
  (forall x, crashDrop (0 / 100) x = 0) /\
  unpPoints d =
    map (fun i => let x := INR i * (WIDTH / INR steps) in
                  (x, START_Y + sin (x / 50) * 10))
        (seq 0 (steps + 1)) /\
  Forall (fun p => snd p < STOP_LOSS_Y) (unpPoints d) /\
  res_isStoppedOut (generatePaths 0) = false /\
  res_stopOutX (generatePaths 0) = 0 /\
  protPoints d = unpPoints d /\
  protPath (generatePaths 0) = unpPath (generatePaths 0).
Proof.
  intros d.
  assert (Hunp : unpPoints d =
                 map (fun i => (xOf i, START_Y + sin (xOf i / 50) * 10))
                     (seq 0 (S steps))).
  { unfold d. rewrite generateLocals_run, unpPoints_as_map.
    apply map_ext. intros i. now rewrite yOf_flat. }
  assert (Hstop : res_isStoppedOut (generatePaths 0) = false).
  { change (isStoppedOut (run (0 / 100) steps) = false).
    rewrite isStoppedOut_run. apply existsb_hit_flat. }
  conjs.
  - exact crashDrop_0.
  - exact Hunp.
  - rewrite Hunp. apply Forall_forall. intros p Hp.
    apply in_map_iff in Hp as [i [<- _]]. cbn [snd].
    pose proof (SIN_bound (xOf i / 50)).
    unfold STOP_LOSS_Y, STOP_LOSS_DELTA, START_Y. lra.
  - exact Hstop.
  - change (stopOutX (run (0 / 100) steps) = 0).
    rewrite stopOutX_run, find_none_forall; [reflexivity|].
    intros i _. apply hit_flat.
  - unfold d. rewrite generateLocals_run.
    rewrite protPoints_run, unpPoints_run. f_equal.
    apply map_ext. intros i. unfold protYOf.
    now rewrite existsb_hit_flat.
  - change (protPathStr (run (0 / 100) steps) = unpPathStr (run (0 / 100) steps)).
    apply paths_agree_until_stop. rewrite isStoppedOut_run.
    apply existsb_hit_flat.
Qed.

(** ** Out-of-range volatility *)





End CrashProps.

(* ================================================================== *)
(** * More on the crash simulator                                      *)
(* ================================================================== *)

Module CrashExtras.
Import CrashSimulator ChartView CrashProps.
Local Open Scope R_scope.

(** ** The path strings *)







(** ** Where the samples lie *)

Lemma xOf_range i : (i <= steps)%nat -> 0 <= xOf i <= WIDTH.
Proof.
  intros Hi. unfold xOf. rewrite stepSize_val. unfold WIDTH.
  pose proof (pos_INR i) as H0. apply le_INR in Hi. rewrite INR_steps in Hi.
  lra.
Qed.

(** X2.  Every sample of both trajectories lies in the view box
    [0 0 800 350], for any input, in range or not. *)
Theorem samples_in_view_box :
  forall v : R,
    let inside := fun p : point =>
                    0 <= fst p <= WIDTH /\ 0 <= snd p <= HEIGHT in
    Forall inside (unpPoints (generateLocals v)) /\
    Forall inside (protPoints (generateLocals v)).
Proof.
  intros v inside. rewrite generateLocals_run, unpPoints_as_map, protPoints_run.
  split.
  - apply Forall_forall. intros p Hp.
    apply in_map_iff in Hp as [i [<- Hi]]. apply in_seq in Hi.
    split; cbn [fst snd].
    + apply xOf_range. lia.
    + apply yOf_bounds.
  - constructor.
    + unfold inside, WIDTH, HEIGHT, START_Y. cbn [fst snd]. lra.
    + apply Forall_forall. intros p Hp.
      apply in_map_iff in Hp as [i [<- Hi]]. apply in_seq in Hi.
      split; cbn [fst snd].
      * apply xOf_range. lia.
      * unfold protYOf. destruct (existsb _ _).
        -- unfold STOP_LOSS_Y, STOP_LOSS_DELTA, START_Y, HEIGHT. lra.
        -- apply yOf_bounds.
Qed.

(** ** Before the stop *)

Lemma prefix_agrees f n j :
  (j <= n)%nat ->
  (forall i, (i <= j)%nat ->
             snd (nth i (unpPoints (run f n)) (0, 0)) < STOP_LOSS_Y) ->
  nth j (protPoints (run f n)) (0, 0) = nth j (unpPoints (run f n)) (0, 0).
Proof.
  intros Hj Hbelow. destruct j as [|j].
  - rewrite protPoints_run, unpPoints_run. reflexivity.
  - rewrite nth_protPoints, nth_unpPoints by lia. f_equal.
    unfold protYOf.
    assert (Hno : existsb (hit f) (seq 1 (S j)) = false).
    { destruct (existsb (hit f) (seq 1 (S j))) eqn:Hex; [|reflexivity].
      apply existsb_exists in Hex as [i [Hi Hhit]]. apply in_seq in Hi.
      specialize (Hbelow i ltac:(lia)).
      rewrite nth_unpPoints in Hbelow by lia. cbn [snd] in Hbelow.
      apply geb_true in Hhit. lra. }
    now rewrite Hno.
Qed.

(** X3.  As long as no unprotected sample up to index [j] has reached the
    stop-loss line, the protected sample [j] is the unprotected one. *)
Theorem protected_tracks_until_stop :
  forall (v : R) (j : nat),
    (j <= steps)%nat ->
    (forall i, (i <= j)%nat ->
               snd (nth i (unpPoints (generateLocals v)) (0, 0)) < STOP_LOSS_Y) ->
    nth j (protPoints (generateLocals v)) (0, 0)
    = nth j (unpPoints (generateLocals v)) (0, 0).
Proof.
  intros v j. rewrite generateLocals_run. apply prefix_agrees.
Qed.

Lemma flat_samples_below_line i :
  (i <= 20)%nat ->
  snd (nth i (unpPoints (generateLocals 0)) (0, 0)) < STOP_LOSS_Y.
Proof.
  intros Hi. rewrite generateLocals_run, nth_unpPoints by exact Hi.
  cbn [snd]. apply geb_false. apply hit_flat.
Qed.

Lemma protected_tracks_until_stop_witness :
  nth 20 (protPoints (generateLocals 0)) (0, 0)
  = nth 20 (unpPoints (generateLocals 0)) (0, 0).
Proof.
  apply (protected_tracks_until_stop 0 20).
  - unfold steps. lia.
  - exact flat_samples_below_line.
Defined.

(** ** The stop index *)

Lemma find_seq_some (p : nat -> bool) (n s i : nat) :
  find p (seq s n) = Some i ->
  (s <= i < s + n)%nat /\ p i = true /\
  (forall j, (s <= j < i)%nat -> p j = false).
Proof.
  revert s. induction n as [|n IH]; intros s; cbn [seq find].
  - discriminate.
  - destruct (p s) eqn:Hs.
    + intros [= <-]. repeat split; try lia. exact Hs.
    + intros Hf. destruct (IH _ Hf) as [Hr [Hi Hb]].
      repeat split; try lia; [exact Hi|].
      intros j Hj. destruct (Nat.eq_dec j s) as [->|Hne]; [exact Hs|].
      apply Hb. lia.
Qed.

Lemma find_seq_none (p : nat -> bool) (n s : nat) :
  find p (seq s n) = None ->
  forall j, (s <= j < s + n)%nat -> p j = false.
Proof.
  intros Hf j Hj. destruct (p j) eqn:Hp; [|reflexivity].
  assert (Hin : In j (seq s n)) by (apply in_seq; exact Hj).
  rewrite (find_none _ _ Hf j Hin) in Hp. discriminate.
Qed.

Lemma xOf_val i : xOf i = INR i * 40.
Proof. unfold xOf. now rewrite stepSize_val. Qed.

Lemma stop_index f n :
  match find (hit f) (seq 1 n) with
  | Some i =>
      isStoppedOut (run f n) = true /\ stopOutX (run f n) = xOf i /\
      (1 <= i <= n)%nat /\
      STOP_LOSS_Y <= yOf f i /\
      (forall j, (1 <= j < i)%nat -> yOf f j < STOP_LOSS_Y)
  | None =>
      isStoppedOut (run f n) = false /\ stopOutX (run f n) = 0 /\
      (forall j, (1 <= j <= n)%nat -> yOf f j < STOP_LOSS_Y)
  end.
Proof.
  rewrite isStoppedOut_run, stopOutX_run, existsb_find.
  destruct (find (hit f) (seq 1 n)) as [i|] eqn:Hf.
  - destruct (find_seq_some _ _ _ _ Hf) as [Hr [Hi Hb]].
    conjs; try reflexivity; try lia.
    + apply geb_true. exact Hi.
    + intros j Hj. apply geb_false. apply Hb. lia.
  - conjs; try reflexivity.
    intros j Hj. apply geb_false.
    apply (find_seq_none _ _ _ Hf). lia.
Qed.

(** X4.  [stopOutX] tells whether the stop fired: it is 0 exactly when
    [isStoppedOut] is false.  When the stop fired, [stopOutX] is the
    abscissa [40 * i] of a sample [i] between 1 and 20, hence between 40
    and 800; that sample is the first unprotected one at or beyond the
    line, and the protected trajectory has the point
    [(stopOutX, STOP_LOSS_Y)] there. *)
Theorem stopOutX_characterised :
  forall v : R,
    let r := generatePaths v in
    let d := generateLocals v in
    (res_stopOutX r = 0 <-> res_isStoppedOut r = false) /\
    (res_isStoppedOut r = true ->
     exists i : nat,
       (1 <= i <= 20)%nat /\
       res_stopOutX r = INR i * 40 /\
       40 <= res_stopOutX r <= 800 /\
       fst (nth i (unpPoints d) (0, 0)) = res_stopOutX r /\
       STOP_LOSS_Y <= snd (nth i (unpPoints d) (0, 0)) /\
       (forall j, (j < i)%nat ->
                  snd (nth j (unpPoints d) (0, 0)) < STOP_LOSS_Y) /\
       nth i (protPoints d) (0, 0) = (res_stopOutX r, STOP_LOSS_Y)).
Proof.
  intros v r d.
  change (res_stopOutX r) with (stopOutX (run (v / 100) steps)).
  change (res_isStoppedOut r) with (isStoppedOut (run (v / 100) steps)).
  unfold d. rewrite generateLocals_run.
  pose proof (stop_index (v / 100) steps) as Hidx.
  destruct (find (hit (v / 100)) (seq 1 steps)) as [i|].
  - destruct Hidx as [Hs [Hx [Hi [Hy Hb]]]]. rewrite Hs, Hx.
    assert (Hi20 : (1 <= i <= 20)%nat) by exact Hi.
    assert (Hxi : 40 <= xOf i <= 800).
    { rewrite xOf_val. destruct Hi20 as [H1 H20].
      apply le_INR in H1, H20. simpl INR in H1.
      replace (INR 20) with 20 in H20 by (rewrite INR_IZR_INZ; reflexivity).
      lra. }
    split.
    + split; [intros H0; lra | discriminate].
    + intros _. exists i. conjs.
      * lia.
      * lia.
      * apply xOf_val.
      * lra.
      * lra.
      * rewrite nth_unpPoints by lia. reflexivity.
      * rewrite nth_unpPoints by lia. exact Hy.
      * intros j Hj. rewrite nth_unpPoints by lia. cbn [snd].
        destruct j as [|j].
        -- rewrite yOf_0. unfold STOP_LOSS_Y, STOP_LOSS_DELTA, START_Y. lra.
        -- apply Hb. lia.
      * rewrite nth_protPoints by lia. f_equal. unfold protYOf.
        assert (Hex : existsb (hit (v / 100)) (seq 1 i) = true).
        { apply existsb_exists. exists i. split; [apply in_seq; lia|].
          apply geb_true. exact Hy. }
        now rewrite Hex.
  - destruct Hidx as [Hs [Hx _]]. rewrite Hs, Hx.
    split; [split; reflexivity | discriminate].
Qed.

(** ** Which inputs fire the stop *)

Lemma unit_square i : (i <= steps)%nat -> 0 <= (xOf i / WIDTH) ^ 2 <= 1.
Proof.
  intros Hi. destruct (xOf_range i Hi) as [H0 H1]. unfold WIDTH in *.
  simpl pow. nra.
Qed.

Lemma clamp_lt y b : y < b -> 0 < b -> Rmin (Rmax y 0) 350 < b.
Proof.
  intros Hy Hb. apply Rle_lt_trans with (Rmax y 0); [apply Rmin_l|].
  apply Rmax_lub_lt; assumption.
Qed.

Lemma clamp_ge y b : b <= y -> b <= 350 -> b <= Rmin (Rmax y 0) 350.
Proof.
  intros Hy Hb. apply Rmin_glb; [|exact Hb].
  apply Rle_trans with y; [exact Hy|apply Rmax_l].
Qed.

Lemma clamp_mono y y' : y <= y' -> Rmin (Rmax y 0) 350 <= Rmin (Rmax y' 0) 350.
Proof.
  intros Hy. apply Rle_min_compat_r. apply Rle_max_compat_r. exact Hy.
Qed.

Lemma miss_below_10 v i : v < 10 -> (i <= steps)%nat -> hit (v / 100) i = false.
Proof.
  intros Hv Hi. apply geb_false. unfold yOf.
  pose proof (noise_bound (xOf i)) as Hn.
  pose proof (unit_square i Hi) as Hc.
  unfold crashDrop. set (c := (xOf i / WIDTH) ^ 2) in *.
  set (nz := noise (xOf i)) in *.
  unfold STOP_LOSS_Y, STOP_LOSS_DELTA, START_Y.
  assert (Hterm : c * 200 * (v / 100) < 20).
  { destruct (Rle_dec 0 v) as [Hpos|Hneg].
    - assert (0 <= (1 - c) * v) by (apply Rmult_le_pos; lra). lra.
    - assert (0 <= c * (- v)) by (apply Rmult_le_pos; lra). lra. }
  apply clamp_lt; lra.
Qed.

Lemma hit_from_20 v : 20 <= v -> hit (v / 100) steps = true.
Proof.
  intros Hv. apply geb_true. unfold yOf. rewrite xOf_steps.
  pose proof (noise_bound WIDTH) as Hn.
  unfold crashDrop, STOP_LOSS_Y, STOP_LOSS_DELTA, START_Y, WIDTH in *.
  simpl pow. apply clamp_ge; lra.
Qed.

(** X5.  Below a volatility of 10 (negative inputs included) the stop never
    fires: [isStoppedOut] is false, [stopOutX] is 0 and the protected
    trajectory is the unprotected one. *)
Theorem no_stop_below_10 :
  forall v : R,
    v < 10 ->
    res_isStoppedOut (generatePaths v) = false /\
    res_stopOutX (generatePaths v) = 0 /\
    protPoints (generateLocals v) = unpPoints (generateLocals v).
Proof.
  intros v Hv.
  change (res_stopOutX (generatePaths v)) with (stopOutX (run (v / 100) steps)).
  change (res_isStoppedOut (generatePaths v))
    with (isStoppedOut (run (v / 100) steps)).
  rewrite generateLocals_run.
  assert (Hmiss : forall n, (n <= steps)%nat ->
                            existsb (hit (v / 100)) (seq 1 n) = false).
  { intros n Hn.
    destruct (existsb (hit (v / 100)) (seq 1 n)) eqn:Hex; [|reflexivity].
    apply existsb_exists in Hex as [i [Hi Hhit]]. apply in_seq in Hi.
    rewrite miss_below_10 in Hhit by (exact Hv || lia). discriminate. }
  conjs.
  - rewrite isStoppedOut_run. apply Hmiss. lia.
  - rewrite stopOutX_run.
    pose proof (Hmiss steps (Nat.le_refl _)) as Hnone.
    rewrite existsb_find in Hnone.
    destruct (find (hit (v / 100)) (seq 1 steps)); [discriminate|reflexivity].
  - rewrite protPoints_run, unpPoints_run. f_equal.
    apply map_ext_in. intros i Hi. apply in_seq in Hi.
    unfold protYOf. rewrite Hmiss by lia. reflexivity.
Qed.

Lemma no_stop_below_10_witness :
  res_isStoppedOut (generatePaths 5) = false /\
  res_stopOutX (generatePaths 5) = 0 /\
  protPoints (generateLocals 5) = unpPoints (generateLocals 5).
Proof.
  apply (no_stop_below_10 5). lra.
Defined.

(** X6.  From a volatility of 20 on the stop always fires, at the last sample
    at the latest: [isStoppedOut] is true and the protected trajectory
    ends on the line at [(WIDTH, STOP_LOSS_Y)]. *)
Theorem stop_from_20 :
  forall v : R,
    20 <= v ->
    res_isStoppedOut (generatePaths v) = true /\
    nth 20 (protPoints (generateLocals v)) (0, 0) = (WIDTH, STOP_LOSS_Y).
Proof.
  intros v Hv.
  change (res_isStoppedOut (generatePaths v))
    with (isStoppedOut (run (v / 100) steps)).
  rewrite generateLocals_run.
  assert (Hex : existsb (hit (v / 100)) (seq 1 steps) = true).
  { apply existsb_exists. exists steps. split.
    - apply in_seq. unfold steps. lia.
    - apply hit_from_20. exact Hv. }
  split.
  - rewrite isStoppedOut_run. exact Hex.
  - rewrite (nth_protPoints (v / 100) steps 20) by (unfold steps; lia).
    change 20%nat with steps. rewrite xOf_steps. f_equal.
    unfold protYOf. now rewrite Hex.
Qed.

Lemma stop_from_20_witness :
  res_isStoppedOut (generatePaths 100) = true /\
  nth 20 (protPoints (generateLocals 100)) (0, 0) = (WIDTH, STOP_LOSS_Y).
Proof.
  apply (stop_from_20 100). lra.
Defined.

(** ** Raising the volatility *)

Lemma yOf_mono f f' i : f <= f' -> yOf f i <= yOf f' i.
Proof.
  intros Hf. unfold yOf. apply clamp_mono. unfold crashDrop.
  pose proof (pow2_ge_0 (xOf i / WIDTH)) as Hsq.
  assert (0 <= (xOf i / WIDTH) ^ 2 * 200 * (f' - f))
    by (apply Rmult_le_pos; lra).
  lra.
Qed.

Lemma hit_mono f f' i : f <= f' -> hit f i = true -> hit f' i = true.
Proof.
  intros Hf Hh. apply geb_true in Hh. apply geb_true.
  pose proof (yOf_mono f f' i Hf). lra.
Qed.

Lemma xOf_le i j : (i <= j)%nat -> xOf i <= xOf j.
Proof. intros Hij. rewrite !xOf_val. apply le_INR in Hij. lra. Qed.

Lemma stop_mono f f' n :
  f <= f' ->
  isStoppedOut (run f n) = true ->
  isStoppedOut (run f' n) = true /\ stopOutX (run f' n) <= stopOutX (run f n).
Proof.
  intros Hf Hs.
  pose proof (stop_index f n) as H1. pose proof (stop_index f' n) as H2.
  destruct (find (hit f) (seq 1 n)) as [i|] eqn:Hfi.
  2:{ destruct H1 as [Hno _]. rewrite Hno in Hs. discriminate. }
  destruct H1 as [_ [Hx [Hi [Hy _]]]].
  assert (Hhit' : hit f' i = true)
    by (apply (hit_mono f f' i Hf); apply geb_true; exact Hy).
  destruct (find (hit f') (seq 1 n)) as [i'|] eqn:Hfi'.
  - destruct H2 as [Hs' [Hx' [Hi' [_ Hb']]]]. split; [exact Hs'|].
    rewrite Hx, Hx'. apply xOf_le.
    destruct (Nat.le_gt_cases i' i) as [Hle|Hgt]; [exact Hle|].
    specialize (Hb' i ltac:(lia)). apply geb_true in Hhit'. lra.
  - destruct H2 as [_ [_ Hb']].
    specialize (Hb' i Hi). apply geb_true in Hhit'. lra.
Qed.

(** X7.  Raising the volatility never lifts an unprotected sample (every [y]
    is non-decreasing in the input), never un-fires the stop, and never
    moves the stop to a later [x]. *)
Theorem raising_volatility :
  forall v v' : R,
    v <= v' ->
    (forall j, (j <= steps)%nat ->
       snd (nth j (unpPoints (generateLocals v)) (0, 0))
       <= snd (nth j (unpPoints (generateLocals v')) (0, 0))) /\
    finalUnpY (generatePaths v) <= finalUnpY (generatePaths v') /\
    (res_isStoppedOut (generatePaths v) = true ->
     res_isStoppedOut (generatePaths v') = true /\
     res_stopOutX (generatePaths v') <= res_stopOutX (generatePaths v)).
Proof.
  intros v v' Hv.
  assert (Hf : v / 100 <= v' / 100) by lra.
  conjs.
  - intros j Hj. rewrite !generateLocals_run, !nth_unpPoints by exact Hj.
    cbn [snd]. apply yOf_mono. exact Hf.
  - rewrite !finalUnpY_yOf. apply yOf_mono. exact Hf.
  - exact (stop_mono (v / 100) (v' / 100) steps Hf).
Qed.

Lemma raising_volatility_witness :
  (forall j, (j <= steps)%nat ->
     snd (nth j (unpPoints (generateLocals 0)) (0, 0))
     <= snd (nth j (unpPoints (generateLocals 50)) (0, 0))) /\
  finalUnpY (generatePaths 0) <= finalUnpY (generatePaths 50) /\
  (res_isStoppedOut (generatePaths 0) = true ->
   res_isStoppedOut (generatePaths 50) = true /\
   res_stopOutX (generatePaths 50) <= res_stopOutX (generatePaths 0)).
Proof.
  apply (raising_volatility 0 50). lra.
Defined.

(** ** The last unprotected sample *)

(** X8.  [finalUnpY] is [150 + 10 sin 16 + 2 * volatility] clamped into
    [[0, 350]]: it stays in the view box, is 0 for every input at or
    below -80 and 350 for every input from 105 on. *)
Theorem finalUnpY_closed_form :
  forall v : R,
    finalUnpY (generatePaths v)
    = Rmin (Rmax (150 + sin 16 * 10 + 2 * v) 0) 350 /\
    0 <= finalUnpY (generatePaths v) <= 350 /\
    (v <= -80 -> finalUnpY (generatePaths v) = 0) /\
    (105 <= v -> finalUnpY (generatePaths v) = 350).
Proof.
  intros v.
  assert (Hcf : finalUnpY (generatePaths v)
                = Rmin (Rmax (150 + sin 16 * 10 + 2 * v) 0) 350).
  { rewrite finalUnpY_yOf. unfold yOf. rewrite xOf_steps.
    unfold noise, crashDrop, START_Y, WIDTH.
    replace (800 / 50) with 16 by lra.
    replace ((800 / 800) ^ 2 * 200 * (v / 100)) with (2 * v)
      by (simpl pow; lra).
    reflexivity. }
  pose proof (SIN_bound 16) as Hs.
  rewrite Hcf. conjs.
  - reflexivity.
  - apply Rmin_glb; [|lra].
    apply Rle_trans with 0; [lra|apply Rmax_r].
  - apply Rmin_r.
  - intros Hv. rewrite Rmax_right by lra. apply Rmin_left. lra.
  - intros Hv. apply Rmin_right.
    apply Rle_trans with (150 + sin 16 * 10 + 2 * v); [lra|apply Rmax_l].
Qed.

(** ** The callout *)



Lemma stopped_from_20 v : 20 <= v -> isStoppedOut (run (v / 100) steps) = true.
Proof.
  intros Hv. rewrite isStoppedOut_run. apply existsb_exists.
  exists steps. split; [apply in_seq; unfold steps; lia|].
  apply hit_from_20. exact Hv.
Qed.


(** ** How early the stop can fire *)

Lemma miss_before_7 v i :
  v <= 100 -> (i <= 6)%nat -> hit (v / 100) i = false.
Proof.
  intros Hv Hi. apply geb_false. unfold yOf.
  pose proof (noise_bound (xOf i)) as Hn.
  assert (Hx : 0 <= xOf i / WIDTH <= 3 / 10).
  { rewrite xOf_val. unfold WIDTH. pose proof (pos_INR i) as H0.
    apply le_INR in Hi.
    replace (INR 6) with 6 in Hi by (rewrite INR_IZR_INZ; reflexivity).
    lra. }
  assert (Hc : 0 <= (xOf i / WIDTH) ^ 2 <= 9 / 100) by (simpl pow; nra).
  unfold crashDrop. set (c := (xOf i / WIDTH) ^ 2) in *.
  set (nz := noise (xOf i)) in *.
  unfold STOP_LOSS_Y, STOP_LOSS_DELTA, START_Y.
  assert (Hterm : c * 200 * (v / 100) <= 18).
  { destruct (Rle_dec 0 v) as [Hpos|Hneg].
    - assert (0 <= (9 / 100 - c) * v) by (apply Rmult_le_pos; lra). lra.
    - assert (0 <= c * (- v)) by (apply Rmult_le_pos; lra). lra. }
  apply clamp_lt; lra.
Qed.

(** X14.  For an input of at most 100, as the slider gives, a stop never
    fires before the seventh sample: [stopOutX >= 280], so the lower
    bound 100 of the callout's clamp is never the one that applies. *)
Theorem in_range_stop_not_before_280 :
  forall v : R,
    v <= 100 ->
    res_isStoppedOut (generatePaths v) = true ->
    280 <= res_stopOutX (generatePaths v) /\
    100 <= Rmin (res_stopOutX (generatePaths v)) 700.
Proof.
  intros v Hv.
  change (res_stopOutX (generatePaths v)) with (stopOutX (run (v / 100) steps)).
  change (res_isStoppedOut (generatePaths v))
    with (isStoppedOut (run (v / 100) steps)).
  intros Hs. pose proof (stop_index (v / 100) steps) as Hidx.
  assert (H280 : 280 <= stopOutX (run (v / 100) steps)).
  { destruct (find (hit (v / 100)) (seq 1 steps)) as [i|].
    - destruct Hidx as [_ [Hx [_ [Hy _]]]]. rewrite Hx, xOf_val.
      destruct (Nat.le_gt_cases i 6) as [Hle|Hgt].
      + pose proof (miss_before_7 v i Hv Hle) as Hmiss.
        apply geb_false in Hmiss. lra.
      + assert (H7 : (7 <= i)%nat) by lia. apply le_INR in H7.
        replace (INR 7) with 7 in H7 by (rewrite INR_IZR_INZ; reflexivity).
        lra.
    - destruct Hidx as [Hno _]. rewrite Hno in Hs. discriminate. }
  split; [exact H280|]. apply Rmin_glb; lra.
Qed.

Lemma in_range_stop_not_before_280_witness :
  280 <= res_stopOutX (generatePaths 100) /\
  100 <= Rmin (res_stopOutX (generatePaths 100)) 700.
Proof.
  apply (in_range_stop_not_before_280 100).
  - lra.
  - apply (stopped_from_20 100). lra.
Defined.

End CrashExtras.

(* ================================================================== *)
(** * More on the ticker                                               *)
(* ================================================================== *)

Module TickerExtras.
Import JSNum LiveTicker TickerLoop PnL.
Import String.StringSyntax.
Local Open Scope float_scope.
Local Open Scope string_scope.

(** ** Construction *)

Lemma or_default_truthy (v : option float) (d : float) :
  (d =? 0) = false -> PrimFloat.is_nan d = false ->
  (or_default v d =? 0) = false /\ PrimFloat.is_nan (or_default v d) = false.
Proof.
  intros Hd0 Hdn. unfold or_default. destruct v as [x|]; [|now split].
  destruct ((x =? 0) || PrimFloat.is_nan x) eqn:Hfalsy; [now split|].
  apply orb_false_iff in Hfalsy. exact Hfalsy.
Qed.

(** X10.  Whatever the config holds, a new ticker starts at its start value
    with no drift, and neither its start value nor its volatility is 0
    or [NaN]: a missing, zero or [NaN] field is replaced by the default
    (388752.65, 5), every other value is taken as it is.  In particular
    a volatility of 0 cannot be configured. *)
Theorem constructor_defaults :
  forall cfg_startValue cfg_volatility : option float,
    let s := constructor cfg_startValue cfg_volatility in
    currentValue s = startValue s /\
    driftBias s = 0 /\
    (startValue s =? 0) = false /\ PrimFloat.is_nan (startValue s) = false /\
    (volatility s =? 0) = false /\ PrimFloat.is_nan (volatility s) = false /\
    (forall x, cfg_startValue = Some x ->
               startValue s = if (x =? 0) || PrimFloat.is_nan x
                              then 388752.65 else x) /\
    (forall x, cfg_volatility = Some x ->
               volatility s = if (x =? 0) || PrimFloat.is_nan x
                              then 5 else x) /\
    (cfg_startValue = None -> startValue s = 388752.65) /\
    (cfg_volatility = None -> volatility s = 5).
Proof.
  intros a b s.
  destruct (or_default_truthy a 388752.65 eq_refl eq_refl) as [Ha0 Han].
  destruct (or_default_truthy b 5 eq_refl eq_refl) as [Hb0 Hbn].
  split; [reflexivity|]. split; [reflexivity|].
  split; [exact Ha0|]. split; [exact Han|].
  split; [exact Hb0|]. split; [exact Hbn|].
  split; [intros x ->; reflexivity|].
  split; [intros x ->; reflexivity|].
  split; intros ->; reflexivity.
Qed.

(** ** The tick loop *)

Lemma ticks_snoc s ds d :
  ticks s (ds ++ [d]) = calculateNextValue (ticks s ds) d.
Proof. unfold ticks. now rewrite fold_left_app. Qed.

(** X11.  However many ticks have run and whatever was drawn, [startValue] and
    [volatility] are those of the start, and [driftBias] is the one of
    the start, 0.5 or -0.5. *)
Theorem ticks_keep_config :
  forall (s : t) (ds : list draws),
    startValue (ticks s ds) = startValue s /\
    volatility (ticks s ds) = volatility s /\
    (driftBias (ticks s ds) = driftBias s \/
     driftBias (ticks s ds) = 0.5 \/
     driftBias (ticks s ds) = -0.5).
Proof.
  intros s ds. induction ds as [|d ds IH] using rev_ind.
  - repeat split. now left.
  - rewrite ticks_snoc. destruct IH as [Hs [Hv Hb]].
    split; [exact Hs|]. split; [exact Hv|].
    cbn [calculateNextValue driftBias]. unfold nextDriftBias.
    destruct (gt (r_trend d) 0.9); [|exact Hb].
    destruct (gt (r_sign d) 0.5); [right; left|right; right]; reflexivity.
Qed.

(** ** Beyond the band *)

(** X12.  Beyond the reversion band the tick ignores the magnitude draw, the
    trend draw, the sign draw and the drift: the new value is
    [currentValue + (-1 * (diff * 0.1)) * direction], the same for any
    two draws that agree on the direction.  The drift is resampled all
    the same. *)
Theorem beyond_band_only_direction :
  forall (s : t) (d d' : draws),
    gt (PrimFloat.abs (diff s)) 500 = true ->
    r_dir d = r_dir d' ->
    currentValue (calculateNextValue s d)
      = currentValue s + (-1 * (diff s * 0.1)) * direction d /\
    currentValue (calculateNextValue s d)
      = currentValue (calculateNextValue s d') /\
    driftBias (calculateNextValue s d) = nextDriftBias s d.
Proof.
  intros s d d' Hfar Hdir.
  cbn [calculateNextValue currentValue driftBias]. unfold change, direction.
  rewrite Hfar, Hdir. repeat split.
Qed.

Lemma beyond_band_only_direction_witness :
  let s := strayed_ticker in
  let d := mkDraws 0.25 0.1 0.2 0.3 in
  let d' := mkDraws 0.25 0.9 0.95 0.8 in
  currentValue (calculateNextValue s d)
    = currentValue s + (-1 * (diff s * 0.1)) * direction d /\
  currentValue (calculateNextValue s d)
    = currentValue (calculateNextValue s d') /\
  driftBias (calculateNextValue s d) = nextDriftBias s d.
Proof.
  apply (beyond_band_only_direction strayed_ticker
           (mkDraws 0.25 0.1 0.2 0.3) (mkDraws 0.25 0.9 0.95 0.8));
    vm_compute; reflexivity.
Defined.

(** ** The PnL line *)











(** The line the page shows when it loads. *)
Lemma first_render_line :
  updatePnl page_ticker
  = Some {| textContent := "+0.33% (+$1278.53)"; className := "text-green" |}.
Proof. vm_compute. reflexivity. Qed.

End TickerExtras.
